(** * The logger package of cloudinfo: logging context carried by context.Context

    A shallow embedding of [src/logger/logger.go].  Go maps are reference
    values, so the embedding keeps an explicit store of map objects and of
    builder objects; a call that can panic (a write through a nil map, a nil
    pointer dereference) yields [None]. *)

From stdpp Require Import gmap strings list fin_maps.

Local Open Scope string_scope.

(** ** Values *)

(** Addresses of heap objects (map objects, builder structs). *)
Abbreviation loc := positive.

(** A value of type [map[string]interface{}]: the nil map or a reference to a
    map object. *)
Inductive mapval :=
  | NilMap
  | MapAt (l : loc).

(** A value of type [interface{}], by dynamic type.  [INil] is the nil
    interface (no dynamic type); [IMap NilMap] is the typed nil map. *)
Inductive iface :=
  | INil
  | IBool (b : bool)
  | IInt (z : Z)
  | IString (s : string)
  | IMap (m : mapval).

#[global] Instance mapval_eq_dec : EqDecision mapval.
Proof. solve_decision. Defined.

#[global] Instance iface_eq_dec : EqDecision iface.
Proof. solve_decision. Defined.

(** The contents of a map object. *)
Abbreviation fieldmap := (gmap string iface).

(** [x.(map[string]interface{})] in its two-result form. *)
Definition assert_map (x : iface) : mapval * bool :=
  match x with
  | IMap m => (m, true)
  | _ => (NilMap, false)
  end.

Definition is_nil (m : mapval) : bool :=
  match m with
  | NilMap => true
  | MapAt _ => false
  end.

(** [for k, v := range src { dst[k] = v }] on a map local to the function:
    one insertion per entry of [src]. *)
Definition copy_entries (src : list (string * iface)) (dst : fieldmap) : fieldmap :=
  foldl (λ acc kv, <[kv.1 := kv.2]> acc) dst src.

(** ** The part of logrus the package uses *)

Module logrus.

Inductive Level :=
  | PanicLevel
  | FatalLevel
  | ErrorLevel
  | WarnLevel
  | InfoLevel
  | DebugLevel
  | TraceLevel.

Inductive Formatter :=
  | JSONFormatter
  | TextFormatter (FullTimestamp : bool).

Record Logger := mkLogger {
  LoggerLevel : Level;
  LoggerFormatter : Formatter
}.

(** [logrus.New()]: text output at info level. *)
Definition New : Logger :=
  {| LoggerLevel := InfoLevel; LoggerFormatter := TextFormatter false |}.

(** [logrus.Fields] has the underlying type [map[string]interface{}]. *)
Record Entry := mkEntry {
  EntryLogger : Logger;
  EntryData : fieldmap
}.

Definition NewEntry (l : Logger) : Entry :=
  {| EntryLogger := l; EntryData := ∅ |}.

(** [Entry.WithFields]: a new entry whose data is a copy of the old data
    with every given field written over it. *)
Definition Entry_WithFields (e : Entry) (fields : fieldmap) : Entry :=
  {| EntryLogger := EntryLogger e;
     EntryData := copy_entries (map_to_list fields)
                    (copy_entries (map_to_list (EntryData e)) ∅) |}.

Definition WithFields (l : Logger) (fields : fieldmap) : Entry :=
  Entry_WithFields (NewEntry l) fields.

Definition lower_ascii (c : Ascii.ascii) : Ascii.ascii :=
  let n := Ascii.N_of_ascii c in
  if ((65 <=? n) && (n <=? 90))%N then Ascii.ascii_of_N (n + 32) else c.

Fixpoint ToLower (s : string) : string :=
  match s with
  | EmptyString => EmptyString
  | String c r => String (lower_ascii c) (ToLower r)
  end.

(** [logrus.ParseLevel]: the level and the error, [None] for a nil error.
    On an error the level is the zero value. *)
Definition ParseLevel (lvl : string) : Level * option string :=
  let s := ToLower lvl in
  if decide (s = "panic") then (PanicLevel, None)
  else if decide (s = "fatal") then (FatalLevel, None)
  else if decide (s = "error") then (ErrorLevel, None)
  else if decide (s = "warn") then (WarnLevel, None)
  else if decide (s = "warning") then (WarnLevel, None)
  else if decide (s = "info") then (InfoLevel, None)
  else if decide (s = "debug") then (DebugLevel, None)
  else if decide (s = "trace") then (TraceLevel, None)
  else (PanicLevel, Some ("not a valid logrus Level: " +:+ lvl)).

End logrus.

(** ** context.Context *)

(** Context keys are compared by identity: the package's private [ctxKey]
    pointer, or any key of another package. *)
Inductive key :=
  | ctxKey
  | foreignKey (name : string).

#[global] Instance key_eq_dec : EqDecision key.
Proof. solve_decision. Defined.

(** An immutable chain of nodes, each holding one key and one value. *)
Inductive context :=
  | Background
  | WithValue (parent : context) (k : key) (val : iface).

(** [ctx.Value(k)]: the value of the nearest node with that key, the nil
    interface when there is none. *)
Fixpoint Value (c : context) (k : key) : iface :=
  match c with
  | Background => INil
  | WithValue parent k' val => if decide (k = k') then val else Value parent k
  end.

(** ** Program state *)

(** [type logCtxBuilder struct { ctx map[string]interface{} }] *)
Record logCtxBuilder := mkBuilder { ctx : mapval }.

Record state := mkState {
  maps : gmap loc (gmap string iface);   (* the map objects *)
  builders : gmap loc logCtxBuilder;     (* the builder structs *)
  logger : logrus.Logger                 (* the package variable [logger] *)
}.

Definition set_maps (f : gmap loc (gmap string iface) → gmap loc (gmap string iface))
    (st : state) : state :=
  {| maps := f (maps st); builders := builders st; logger := logger st |}.

Definition set_builders (f : gmap loc logCtxBuilder → gmap loc logCtxBuilder)
    (st : state) : state :=
  {| maps := maps st; builders := f (builders st); logger := logger st |}.

Definition set_logger (l : logrus.Logger) (st : state) : state :=
  {| maps := maps st; builders := builders st; logger := l |}.

(** The state before [main] runs: nothing allocated, the default logger. *)
Definition initial : state :=
  {| maps := ∅; builders := ∅; logger := logrus.New |}.

(** Computations over the state that may panic. *)
Definition M (A : Type) : Type := state → option (A * state).

#[global] Instance M_ret : MRet M := λ A a st, Some (a, st).

#[global] Instance M_bind : MBind M := λ A B f m st,
  match m st with
  | Some (a, st') => f a st'
  | None => None
  end.

Definition panic {A} : M A := λ _, None.
Definition gets {A} (f : state → A) : M A := λ st, Some (f st, st).
Definition modify (f : state → state) : M unit := λ st, Some ((), f st).

(** The contents of a map object. *)
Definition contents (st : state) (m : mapval) : gmap string iface :=
  match m with
  | NilMap => ∅
  | MapAt l => maps st !!! l
  end.

(** [make(map[string]interface{})] *)
Definition make_map : M mapval := λ st,
  let l := fresh (dom (maps st)) in
  Some (MapAt l, set_maps <[l := ∅]> st).

(** [m[k] = v]; assignment to an entry in a nil map panics. *)
Definition map_store (m : mapval) (k : string) (v : iface) : M unit :=
  match m with
  | NilMap => panic
  | MapAt l => modify (λ st, set_maps <[l := <[k := v]> (maps st !!! l)]> st)
  end.

(** The entries [range m] visits; none for a nil map.  No loop of the package
    adds or deletes a key of the map it ranges over, so these are the entries
    present when the loop starts. *)
Definition map_range (m : mapval) : M (list (string * iface)) :=
  gets (λ st, map_to_list (contents st m)).

(** [for k, v := range ... { dst[k] = v }] on a shared map object. *)
Fixpoint range_store (dst : mapval) (kvs : list (string * iface)) : M unit :=
  match kvs with
  | [] => mret ()
  | (k, v) :: rest => map_store dst k v ;; range_store dst rest
  end.

(** ** Extract and ToContext *)

Definition Extract (c : context) : M logrus.Entry :=
  let '(fds, ok) := assert_map (Value c ctxKey) in
  if negb ok || is_nil fds then
    lg ← gets logger; mret (logrus.NewEntry lg)
  else
    kvs ← map_range fds;
    let fields := copy_entries kvs ∅ in
    lg ← gets logger; mret (logrus.WithFields lg fields).

Definition ToContext (c : context) (fields : mapval) : M context :=
  let '(parentVals, ok) := assert_map (Value c ctxKey) in
  if is_nil parentVals && ok then
    mret (WithValue c ctxKey (IMap fields))
  else
    (if ok then kvs ← map_range parentVals; range_store fields kvs
     else mret ()) ;;
    mret (WithValue c ctxKey (IMap fields)).

(** ** Configuration of the default logger *)

Definition correlationIdKey := "correlation-id".
Definition scrapeIdFullKey := "scrape-id-full".
Definition scrapeIdShortKey := "scrape-id-short".
Definition providerKey := "provider".
Definition serviceKey := "service".
Definition regionKey := "region".

Record Config := mkConfig {
  ConfigLevel : string;
  ConfigFormat : string
}.

Section Configure.

(** The level parser of the logging library: the parsed level and the
    error, [None] for a nil error. *)
Variable ParseLevel : string → logrus.Level * option string.

Definition newLogger (config : Config) : logrus.Logger :=
  let '(level, err) := ParseLevel (ConfigLevel config) in
  let level := if err is Some _ then logrus.InfoLevel else level in
  let formatter :=
    if decide (ConfigFormat config = "json") then logrus.JSONFormatter
    else logrus.TextFormatter true in
  {| logrus.LoggerLevel := level; logrus.LoggerFormatter := formatter |}.

Definition InitLogger (level format : string) : M unit :=
  modify (set_logger (newLogger {| ConfigLevel := level; ConfigFormat := format |})).

End Configure.

(** ** The builder of logging contexts *)

(** [&logCtxBuilder{...}]: a new struct on the heap. *)
Definition new_builder (b : logCtxBuilder) : M loc := λ st,
  let l := fresh (dom (builders st)) in
  Some (l, set_builders <[l := b]> st).

(** [*cb]; a nil or dangling receiver panics. *)
Definition load_builder (cb : loc) : M logCtxBuilder := λ st,
  match builders st !! cb with
  | Some b => Some (b, st)
  | None => None
  end.

Definition store_builder (cb : loc) (b : logCtxBuilder) : M unit :=
  modify (set_builders <[cb := b]>).

Definition init (cb : loc) : M unit :=
  b ← load_builder cb;
  if is_nil (ctx b) then
    m ← make_map; store_builder cb {| ctx := m |}
  else mret ().

Definition NewLogCtxBuilder : M loc :=
  lCtx ← new_builder {| ctx := NilMap |};
  init lCtx ;;
  mret lCtx.

Definition WithField (cb : loc) (field : string) (value : iface) : M loc :=
  init cb ;;
  b ← load_builder cb;
  map_store (ctx b) field value ;;
  mret cb.

Definition WithProvider (cb : loc) (provider : string) : M loc :=
  WithField cb providerKey (IString provider).

Definition WithService (cb : loc) (service : string) : M loc :=
  WithField cb serviceKey (IString service).

Definition WithRegion (cb : loc) (region : string) : M loc :=
  WithField cb regionKey (IString region).

Definition WithCorrelationId (cb : loc) (cid : string) : M loc :=
  WithField cb correlationIdKey (IString cid).

Definition WithScrapeIdShort (cb : loc) (id : iface) : M loc :=
  WithField cb scrapeIdShortKey id.

Definition WithScrapeIdFull (cb : loc) (id : iface) : M loc :=
  WithField cb scrapeIdFullKey id.

Definition Build (cb : loc) : M mapval :=
  init cb ;;
  b ← load_builder cb;
  mret (ctx b).

(** ** Runs on concrete inputs *)

(** A state with a map object [{correlation-id: "xyz", region: "eu"}] at 1
    and a map object [{correlation-id: "abc"}] at 2. *)
Definition two_maps : state :=
  set_maps (λ _, {[ 1%positive := {[ "correlation-id" := IString "xyz";
                                     "region" := IString "eu" ]};
                    2%positive := {[ "correlation-id" := IString "abc" ]} ]})
    initial.

Definition attach_twice (a b : mapval) : M logrus.Entry :=
  c1 ← ToContext Background a;
  c2 ← ToContext c1 b;
  Extract c2.

(** [two_maps] with one more map object, [{}], at 3. *)
Definition with_empty_map : state :=
  set_maps <[ 3%positive := ∅ ]> two_maps.

(** A state with one builder at 1 that has not been initialised. *)
Definition zero_builder : state :=
  set_builders <[ 1%positive := {| ctx := NilMap |} ]> initial.

(** [two_maps] with a builder at 1 whose map is the map object at 2. *)
Definition ready_builder : state :=
  set_builders <[ 1%positive := {| ctx := MapAt 2 |} ]> two_maps.

(** A chain of nested scopes: each map of the list is attached in turn to
    the context the previous call returned. *)
Fixpoint attach_all (c : context) (fs : list mapval) : M context :=
  match fs with
  | [] => mret c
  | f :: rest => c' ← ToContext c f; attach_all c' rest
  end.

(** The builder chain of the package's callers. *)
Definition aws_pke_chain : M mapval :=
  cb ← NewLogCtxBuilder;
  cb ← WithProvider cb "aws";
  cb ← WithService cb "pke";
  cb ← WithRegion cb "eu-west-1";
  Build cb.

(** The field set a context carries: the contents of the map stored under
    [ctxKey], nothing when the stored value is not a map. *)
Definition carried (st : state) (c : context) : gmap string iface :=
  contents st (assert_map (Value c ctxKey)).1.

(** * Properties *)

(** Unfolds the operations of [M] so that a run reduces. *)
Ltac run_M := unfold mbind, M_bind, map_range, gets, mret, M_ret; cbn.

(** ** Copy loops *)

Lemma copy_entries_list (kvs : list (string * iface)) (dst : gmap string iface) :
  NoDup kvs.*1 → copy_entries kvs dst = list_to_map kvs ∪ dst.
Proof.
  revert dst. induction kvs as [|[k v] kvs IH]; intros dst Hnd.
  - cbn. by rewrite (left_id_L ∅ (∪)).
  - apply NoDup_cons in Hnd as [Hk Hnd].
    cbn [copy_entries foldl fst snd]. fold (copy_entries kvs (<[k:=v]> dst)).
    rewrite IH by done. cbn [list_to_map foldr uncurry].
    rewrite <-insert_union_r by (by apply not_elem_of_list_to_map_1).
    by rewrite insert_union_l.
Qed.

Lemma copy_entries_map (src dst : gmap string iface) :
  copy_entries (map_to_list src) dst = src ∪ dst.
Proof.
  rewrite copy_entries_list by apply NoDup_fst_map_to_list.
  by rewrite list_to_map_to_list.
Qed.

Lemma WithFields_data (lg : logrus.Logger) (fields : gmap string iface) :
  logrus.WithFields lg fields = logrus.mkEntry lg fields.
Proof.
  unfold logrus.WithFields, logrus.Entry_WithFields, logrus.NewEntry. cbn.
  rewrite map_to_list_empty. cbn.
  by rewrite copy_entries_map, (right_id_L ∅ (∪)).
Qed.

Lemma maps_total_frame (st st' : state) (l : loc) :
  maps st' !! l = maps st !! l → maps st' !!! l = maps st !!! l.
Proof. intros H. by rewrite !lookup_total_alt, H. Qed.

Lemma range_store_MapAt (f : loc) (kvs : list (string * iface)) (st : state) :
  ∃ st', range_store (MapAt f) kvs st = Some ((), st')
    ∧ maps st' !!! f = copy_entries kvs (maps st !!! f)
    ∧ (kvs = [] → st' = st)
    ∧ (∀ l, l ≠ f → maps st' !! l = maps st !! l)
    ∧ builders st' = builders st ∧ logger st' = logger st.
Proof.
  revert st. induction kvs as [|[k v] kvs IH]; intros st.
  - exists st. by repeat split.
  - pose (st1 := set_maps <[f := <[k := v]> (maps st !!! f)]> st).
    destruct (IH st1) as (st' & Hrun & Hf & _ & Hother & Hb & Hl).
    exists st'. split; [exact Hrun|]. split; [|split; [done|split; [|done]]].
    + rewrite Hf. subst st1. cbn. by rewrite lookup_total_insert_eq.
    + intros l Hne. rewrite Hother by done. subst st1. cbn.
      by rewrite lookup_insert_ne.
Qed.

Lemma range_store_NilMap (kvs : list (string * iface)) (st : state) :
  range_store NilMap kvs st = match kvs with [] => Some ((), st) | _ => None end.
Proof. by destruct kvs as [|[k v] kvs]. Qed.

(** ** Extract *)

Lemma Extract_run (c : context) (st : state) :
  Extract c st = Some (logrus.mkEntry (logger st) (carried st c), st).
Proof.
  unfold Extract, carried.
  destruct (Value c ctxKey) as [| | | |[|l]]; try reflexivity.
  cbn. run_M.
  by rewrite WithFields_data, copy_entries_map, (right_id_L ∅ (∪)).
Qed.

(** ** ToContext *)

Lemma ToContext_MapAt (c : context) (f : loc) (st : state) :
  ∃ st', ToContext c (MapAt f) st = Some (WithValue c ctxKey (IMap (MapAt f)), st')
    ∧ maps st' !!! f = carried st c ∪ maps st !!! f
    ∧ (carried st c = ∅ → st' = st)
    ∧ (∀ l, l ≠ f → maps st' !! l = maps st !! l)
    ∧ builders st' = builders st ∧ logger st' = logger st.
Proof.
  unfold ToContext, carried.
  destruct (Value c ctxKey) as [| | | |[|p]]; cbn;
    try (exists st; rewrite (left_id_L ∅ (∪)); by repeat split).
  destruct (range_store_MapAt f (map_to_list (maps st !!! p)) st)
    as (st' & Hrun & Hf & Hnil & Hother & Hb & Hl).
  exists st'. run_M.
  rewrite Hrun. split; [done|]. split; [by rewrite Hf, copy_entries_map|].
  split; [|done]. intros Hempty. apply Hnil. rewrite Hempty.
  apply map_to_list_empty.
Qed.

Lemma ToContext_NilMap (c : context) (st : state) :
  ToContext c NilMap st =
    if decide (carried st c = ∅) then Some (WithValue c ctxKey (IMap NilMap), st)
    else None.
Proof.
  unfold ToContext, carried.
  destruct (Value c ctxKey) as [| | | |[|p]]; cbn; try by case_decide.
  run_M.
  rewrite range_store_NilMap. case_decide as He.
  - rewrite He, map_to_list_empty. done.
  - destruct (map_to_list (maps st !!! p)) eqn:E; [|done].
    by apply map_to_list_empty_iff in E.
Qed.

(** C1, as the specification states it, fails: with the parent carrying
    [{correlation-id: "xyz", region: "eu"}] and the child attached with
    [{correlation-id: "abc"}], the extracted entry holds the parent's "xyz"
    under the key both sets have, not the child's "abc". *)
Lemma attach_twice_parent_value_wins :
  contents two_maps (MapAt 1) !! "correlation-id" = Some (IString "xyz")
  ∧ contents two_maps (MapAt 2) !! "correlation-id" = Some (IString "abc")
  ∧ (λ r, logrus.EntryData r.1 !! "correlation-id")
      <$> attach_twice (MapAt 1) (MapAt 2) two_maps
    = Some (Some (IString "xyz")).
Proof. repeat split; vm_compute; reflexivity. Qed.

(** C1 (amended): extracting from the context built by attaching A to the
    root and then B to the result succeeds and yields A merged with B with
    A's keys taking precedence: a key of A has A's value, whether B has it or
    not, and a key only in B has B's value. *)
Theorem attach_twice_merge (st : state) (a : mapval) (b : loc) :
  let A := contents st a in
  let B := contents st (MapAt b) in
  ∃ e st', attach_twice a (MapAt b) st = Some (e, st')
    ∧ logrus.EntryData e = A ∪ B
    ∧ (∀ k v, A !! k = Some v → logrus.EntryData e !! k = Some v)
    ∧ (∀ k, A !! k = None → logrus.EntryData e !! k = B !! k).
Proof.
  intros A B. unfold attach_twice.
  assert (∃ c1, ToContext Background a st = Some (c1, st)
                ∧ carried st c1 = A) as (c1 & Hrun1 & Hc1).
  { destruct a as [|l].
    - exists (WithValue Background ctxKey (IMap NilMap)). by split.
    - exists (WithValue Background ctxKey (IMap (MapAt l))). by split. }
  destruct (ToContext_MapAt c1 b st) as (st' & Hrun2 & Hb & _ & _ & _ & Hl).
  exists (logrus.mkEntry (logger st') (A ∪ B)), st'.
  split.
  - unfold mbind, M_bind. rewrite Hrun1, Hrun2, Extract_run.
    unfold carried. cbn. rewrite decide_True by done. cbn.
    by rewrite Hb, Hc1.
  - cbn. split; [done|]. split.
    + intros k v Hk. by apply lookup_union_Some_l.
    + intros k Hk. by apply lookup_union_r.
Qed.

Lemma attach_twice_merge_witness :
  ∃ e st', attach_twice (MapAt 1) (MapAt 2) two_maps = Some (e, st')
    ∧ logrus.EntryData e !! "region" = Some (IString "eu")
    ∧ logrus.EntryData e !! "provider" = None.
Proof.
  destruct (attach_twice_merge two_maps (MapAt 1) 2%positive)
    as (e & st' & Hrun & _ & HA & HB).
  exists e, st'. split; [exact Hrun|]. split.
  - apply HA. vm_compute. reflexivity.
  - rewrite HB; vm_compute; reflexivity.
Defined.

(** C2: a call of ToContext that returns leaves the map the parent context
    carries as it was, so that Extract on the parent context gives the same
    entry after the call as before it. *)
Theorem ToContext_parent_unchanged (st : state) (c : context) (p : loc)
    (fields : mapval) (c' : context) (st' : state) :
  Value c ctxKey = IMap (MapAt p) →
  ToContext c fields st = Some (c', st') →
  maps st' !!! p = maps st !!! p
  ∧ fst <$> Extract c st' = fst <$> Extract c st.
Proof.
  intros Hp Hrun.
  assert (maps st' !!! p = maps st !!! p ∧ logger st' = logger st)
    as [Hmap Hlog].
  { destruct fields as [|f].
    - rewrite ToContext_NilMap in Hrun. case_decide; by simplify_eq.
    - destruct (ToContext_MapAt c f st) as (st1 & Hrun1 & Hf & _ & Hother & _ & Hl).
      rewrite Hrun1 in Hrun. simplify_eq. split; [|done].
      destruct (decide (p = f)) as [->|Hne].
      + rewrite Hf. unfold carried. rewrite Hp. cbn. apply (idemp_L (∪)).
      + apply maps_total_frame. by apply Hother. }
  split; [done|]. rewrite !Extract_run. cbn. unfold carried.
  rewrite Hp. cbn. by rewrite Hmap, Hlog.
Qed.

Lemma ToContext_parent_unchanged_witness :
  ∃ st', ToContext (WithValue Background ctxKey (IMap (MapAt 1))) (MapAt 2) two_maps
           = Some (WithValue (WithValue Background ctxKey (IMap (MapAt 1)))
                     ctxKey (IMap (MapAt 2)), st')
    ∧ maps st' !!! 1%positive = maps two_maps !!! 1%positive.
Proof.
  destruct (ToContext_MapAt (WithValue Background ctxKey (IMap (MapAt 1)))
              2%positive two_maps) as (st' & Hrun & _).
  exists st'. split; [exact Hrun|].
  exact (proj1 (ToContext_parent_unchanged two_maps
                  (WithValue Background ctxKey (IMap (MapAt 1))) 1%positive
                  (MapAt 2) _ st' eq_refl Hrun)).
Defined.

(** C3, as the specification states it, fails: ToContext writes into the
    caller's map.  With the parent carrying
    [{correlation-id: "xyz", region: "eu"}], the caller's map
    [{correlation-id: "abc"}] gains the key "region" and has its
    "correlation-id" overwritten. *)
Lemma ToContext_writes_into_fields :
  contents two_maps (MapAt 2) !! "region" = None
  ∧ contents two_maps (MapAt 2) !! "correlation-id" = Some (IString "abc")
  ∧ (λ r, (contents r.2 (MapAt 2) !! "region",
           contents r.2 (MapAt 2) !! "correlation-id"))
      <$> ToContext (WithValue Background ctxKey (IMap (MapAt 1))) (MapAt 2) two_maps
    = Some (Some (IString "eu"), Some (IString "xyz")).
Proof. repeat split; vm_compute; reflexivity. Qed.

(** C3 (amended): ToContext with a non-nil map as [fields] returns the child
    context holding that same map, after writing into it every key and value
    of the field set the parent context carries; the keys of [fields] that the
    parent's set lacks keep their values.  The map is left as it was when the
    parent carries no field set or an empty one, and no other map, no builder
    and not the logger is changed. *)
Theorem ToContext_fields_effect (st : state) (c : context) (f : loc) :
  ∃ st', ToContext c (MapAt f) st = Some (WithValue c ctxKey (IMap (MapAt f)), st')
    ∧ contents st' (MapAt f) = carried st c ∪ contents st (MapAt f)
    ∧ (carried st c = ∅ → st' = st)
    ∧ (∀ l, l ≠ f → maps st' !! l = maps st !! l)
    ∧ builders st' = builders st ∧ logger st' = logger st.
Proof. apply ToContext_MapAt. Qed.

Lemma ToContext_fields_effect_witness :
  ∃ st', ToContext Background (MapAt 2) two_maps
           = Some (WithValue Background ctxKey (IMap (MapAt 2)), st')
    ∧ st' = two_maps.
Proof.
  destruct (ToContext_fields_effect two_maps Background 2%positive)
    as (st' & Hrun & _ & Hsame & _).
  exists st'. split; [exact Hrun|]. apply Hsame. reflexivity.
Defined.

(** C4: on a context with nothing stored under the logger key, such as the
    root context, Extract returns, without failing and without changing the
    state, an entry of the default logger whose field set is empty. *)
Theorem Extract_no_attachment (st : state) (c : context) :
  Value c ctxKey = INil →
  ∃ e, Extract c st = Some (e, st)
    ∧ logrus.EntryData e = ∅
    ∧ logrus.EntryLogger e = logger st.
Proof.
  intros Hnil. exists (logrus.NewEntry (logger st)).
  unfold Extract. rewrite Hnil. by repeat split.
Qed.

Lemma Extract_no_attachment_witness :
  ∃ e, Extract Background initial = Some (e, initial)
    ∧ logrus.EntryData e = ∅
    ∧ logrus.EntryLogger e = logrus.New.
Proof. apply (Extract_no_attachment initial Background). reflexivity. Defined.




(** The nil map is no substitute for an empty map: attaching it to a context
    that carries at least one field panics. *)
Lemma ToContext_nil_fields_panics (st : state) (c : context) :
  carried st c ≠ ∅ → ToContext c NilMap st = None.
Proof. intros Hne. rewrite ToContext_NilMap. by rewrite decide_False. Qed.

(** C10: when the value stored under the logger key is the typed nil map, or
    has a dynamic type other than the map type, Extract returns what it
    returns on the root context: an entry of the default logger without
    fields, the state unchanged. *)
Theorem Extract_malformed (st : state) (c : context) :
  Value c ctxKey = IMap NilMap ∨ (∀ m, Value c ctxKey ≠ IMap m) →
  Extract c st = Some (logrus.NewEntry (logger st), st)
  ∧ Extract c st = Extract Background st.
Proof.
  intros [Hnil|Hother]; unfold Extract.
  - by rewrite Hnil.
  - destruct (Value c ctxKey) as [| | | |m]; try done. by destruct (Hother m).
Qed.

Lemma Extract_malformed_witness :
  Extract (WithValue Background ctxKey (IMap NilMap)) two_maps
    = Some (logrus.NewEntry logrus.New, two_maps)
  ∧ Extract (WithValue Background ctxKey (IString "fields")) two_maps
    = Some (logrus.NewEntry logrus.New, two_maps).
Proof.
  split.
  - apply (Extract_malformed two_maps (WithValue Background ctxKey (IMap NilMap))).
    left. reflexivity.
  - apply (Extract_malformed two_maps
             (WithValue Background ctxKey (IString "fields"))).
    right. intros m. vm_compute. discriminate.
Defined.

(** ** Configuration *)

Section ConfigureFacts.

Variable ParseLevel : string → logrus.Level * option string.

(** C6: when the level string does not parse, InitLogger with format "json"
    returns and leaves a default logger at info level with the JSON
    formatter; and whatever the level string, a format other than "json"
    selects the text formatter. *)
Theorem InitLogger_fallback (level : string) (zero : logrus.Level)
    (err : string) (st : state) :
  ParseLevel level = (zero, Some err) →
  (∃ st', InitLogger ParseLevel level "json" st = Some ((), st')
     ∧ logrus.LoggerLevel (logger st') = logrus.InfoLevel
     ∧ logrus.LoggerFormatter (logger st') = logrus.JSONFormatter)
  ∧ (∀ level' format, format ≠ "json" →
       logrus.LoggerFormatter
         (newLogger ParseLevel {| ConfigLevel := level'; ConfigFormat := format |})
       = logrus.TextFormatter true).
Proof.
  intros Herr. split.
  - eexists. split; [reflexivity|]. cbn. unfold newLogger. cbn.
    by rewrite Herr.
  - intros level' format Hne. unfold newLogger. cbn.
    destruct (ParseLevel level') as [lv e]. cbn. by rewrite decide_False.
Qed.

End ConfigureFacts.

Lemma InitLogger_fallback_witness :
  (∃ st', InitLogger logrus.ParseLevel "bogus-level" "json" initial = Some ((), st')
     ∧ logrus.LoggerLevel (logger st') = logrus.InfoLevel
     ∧ logrus.LoggerFormatter (logger st') = logrus.JSONFormatter)
  ∧ logrus.LoggerFormatter
      (newLogger logrus.ParseLevel {| ConfigLevel := "debug"; ConfigFormat := "yaml" |})
    = logrus.TextFormatter true.
Proof.
  destruct (InitLogger_fallback logrus.ParseLevel "bogus-level" logrus.PanicLevel
              "not a valid logrus Level: bogus-level" initial) as [Hjson Htext].
  - vm_compute. reflexivity.
  - split; [exact Hjson|]. apply Htext. discriminate.
Defined.

(** ** The builder *)

Lemma init_ready (cb m : loc) (st : state) :
  builders st !! cb = Some {| ctx := MapAt m |} → init cb st = Some ((), st).
Proof.
  intros Hcb. unfold init, mbind, M_bind, load_builder. by rewrite Hcb.
Qed.

Lemma init_zero (cb : loc) (st : state) :
  builders st !! cb = Some {| ctx := NilMap |} →
  let m := fresh (dom (maps st)) in
  init cb st
  = Some ((), set_builders <[cb := {| ctx := MapAt m |}]> (set_maps <[m := ∅]> st)).
Proof.
  intros Hcb. unfold init, mbind, M_bind, load_builder. by rewrite Hcb.
Qed.

Lemma WithField_ready (cb m : loc) (k : string) (v : iface) (st : state) :
  builders st !! cb = Some {| ctx := MapAt m |} →
  WithField cb k v st
  = Some (cb, set_maps <[m := <[k := v]> (maps st !!! m)]> st).
Proof.
  intros Hcb. unfold WithField, mbind, M_bind.
  rewrite (init_ready cb m) by done. unfold load_builder. by rewrite Hcb.
Qed.

Lemma Build_ready (cb m : loc) (st : state) :
  builders st !! cb = Some {| ctx := MapAt m |} →
  Build cb st = Some (MapAt m, st).
Proof.
  intros Hcb. unfold Build, mbind, M_bind.
  rewrite (init_ready cb m) by done. unfold load_builder. by rewrite Hcb.
Qed.

Lemma Build_zero (cb : loc) (st : state) :
  builders st !! cb = Some {| ctx := NilMap |} →
  let m := fresh (dom (maps st)) in
  Build cb st
  = Some (MapAt m,
          set_builders <[cb := {| ctx := MapAt m |}]> (set_maps <[m := ∅]> st)).
Proof.
  intros Hcb m. unfold Build, mbind, M_bind.
  rewrite init_zero by done. unfold load_builder. cbn.
  by rewrite lookup_insert_eq.
Qed.

Lemma NewLogCtxBuilder_run (st : state) :
  let cb := fresh (dom (builders st)) in
  let m := fresh (dom (maps st)) in
  NewLogCtxBuilder st
  = Some (cb, {| maps := <[m := ∅]> (maps st);
                 builders := <[cb := {| ctx := MapAt m |}]> (builders st);
                 logger := logger st |}).
Proof.
  intros cb m. unfold NewLogCtxBuilder, mbind, M_bind, new_builder.
  fold cb. rewrite init_zero by (cbn; apply lookup_insert_eq).
  unfold mret, M_ret, set_builders, set_maps. cbn. fold m.
  by rewrite insert_insert_eq.
Qed.

(** C7: from any state, a fresh builder taken through WithProvider("aws"),
    WithService("pke") and WithRegion("eu-west-1") builds a map object that
    holds these three entries and no other. *)
Theorem Build_provider_service_region (st : state) :
  ∃ m st', aws_pke_chain st = Some (MapAt m, st')
    ∧ maps st' !! m = Some {[ "provider" := IString "aws";
                              "service" := IString "pke";
                              "region" := IString "eu-west-1" ]}.
Proof.
  unfold aws_pke_chain, mbind, M_bind. rewrite NewLogCtxBuilder_run.
  set (cb := fresh (dom (builders st))). set (m := fresh (dom (maps st))).
  unfold WithProvider, WithService, WithRegion.
  rewrite (WithField_ready cb m) by apply lookup_insert_eq.
  rewrite (WithField_ready cb m) by apply lookup_insert_eq.
  rewrite (WithField_ready cb m) by apply lookup_insert_eq.
  rewrite (Build_ready cb m) by apply lookup_insert_eq.
  eexists _, _. split; [reflexivity|]. cbn.
  rewrite !lookup_total_insert_eq, lookup_insert_eq.
  vm_compute. reflexivity.
Qed.

(** C8: on any allocated builder, Build returns a map; a second Build right
    after it returns the same map with the state, hence the contents,
    unchanged; the builder keeps that map; Build on a builder that already
    has its map changes nothing; and a WithField after the Build writes into
    that same map, which a later Build returns with the new entry. *)
Theorem Build_repeatable (st : state) (cb : loc) :
  is_Some (builders st !! cb) →
  ∃ m st1, Build cb st = Some (MapAt m, st1)
    ∧ Build cb st1 = Some (MapAt m, st1)
    ∧ builders st1 !! cb = Some {| ctx := MapAt m |}
    ∧ (∀ m0, builders st !! cb = Some {| ctx := MapAt m0 |} → m0 = m ∧ st1 = st)
    ∧ (∀ k v, ∃ st2, WithField cb k v st1 = Some (cb, st2)
         ∧ Build cb st2 = Some (MapAt m, st2)
         ∧ contents st2 (MapAt m) = <[k := v]> (contents st1 (MapAt m))).
Proof.
  intros [[[|m]] Hcb].
  - eexists _, _. split; [by apply Build_zero|]. cbn.
    assert (∀ st', builders st' !! cb = Some {| ctx := MapAt (fresh (dom (maps st))) |} →
              Build cb st' = Some (MapAt (fresh (dom (maps st))), st')) as HB
      by (intros; by apply Build_ready).
    split; [apply HB; cbn; apply lookup_insert_eq|].
    split; [cbn; apply lookup_insert_eq|].
    split; [intros m0 Hm0; congruence|].
    intros k v. eexists. split.
    + apply WithField_ready. cbn. apply lookup_insert_eq.
    + split; [apply HB; cbn; apply lookup_insert_eq|].
      cbn. by rewrite !lookup_total_insert_eq.
  - exists m, st. split; [by apply Build_ready|].
    split; [by apply Build_ready|]. split; [done|].
    split; [intros m0 Hm0; split; congruence|].
    intros k v. eexists. split; [by apply WithField_ready|].
    split; [by apply Build_ready|]. cbn. by rewrite lookup_total_insert_eq.
Qed.

Lemma Build_repeatable_witness :
  ∃ m st1, Build 1%positive zero_builder = Some (MapAt m, st1)
    ∧ Build 1%positive st1 = Some (MapAt m, st1)
    ∧ ∃ st2, WithField 1%positive "region" (IString "eu") st1 = Some (1%positive, st2)
        ∧ Build 1%positive st2 = Some (MapAt m, st2)
        ∧ contents st2 (MapAt m) = <["region" := IString "eu"]> (contents st1 (MapAt m)).
Proof.
  destruct (Build_repeatable zero_builder 1%positive)
    as (m & st1 & H1 & H2 & _ & _ & HW).
  - vm_compute. eexists. reflexivity.
  - exists m, st1. split; [exact H1|]. split; [exact H2|].
    apply (HW "region" (IString "eu")).
Defined.

(** C9: each convenience setter is WithField at its reserved key: the two
    calls give the same result from every state, for every receiver and
    value; and on an allocated builder WithField returns its receiver. *)
Theorem setters_are_WithField (st : state) (cb : loc) (s : string) (id : iface) :
  WithProvider cb s st = WithField cb "provider" (IString s) st
  ∧ WithService cb s st = WithField cb "service" (IString s) st
  ∧ WithRegion cb s st = WithField cb "region" (IString s) st
  ∧ WithCorrelationId cb s st = WithField cb "correlation-id" (IString s) st
  ∧ WithScrapeIdShort cb id st = WithField cb "scrape-id-short" id st
  ∧ WithScrapeIdFull cb id st = WithField cb "scrape-id-full" id st
  ∧ (is_Some (builders st !! cb) →
     ∀ k v, ∃ st', WithField cb k v st = Some (cb, st')).
Proof.
  repeat (split; [reflexivity|]).
  intros [[[|m]] Hcb] k v.
  - unfold WithField, mbind, M_bind. rewrite init_zero by done.
    unfold load_builder. cbn. rewrite lookup_insert_eq. cbn. by eexists.
  - rewrite (WithField_ready cb m) by done. by eexists.
Qed.

Lemma setters_are_WithField_witness :
  WithProvider 1%positive "aws" zero_builder
    = WithField 1%positive "provider" (IString "aws") zero_builder
  ∧ ∃ st', WithField 1%positive "provider" (IString "aws") zero_builder
           = Some (1%positive, st').
Proof.
  destruct (setters_are_WithField zero_builder 1%positive "aws" INil)
    as (Hp & _ & _ & _ & _ & _ & Hret).
  split; [exact Hp|]. apply Hret. vm_compute. eexists. reflexivity.
Defined.

(** * Further properties of the package *)

(** ** Extract and ToContext on arbitrary contexts *)

Lemma carried_frame (st st' : state) (c : context) (f : loc) :
  (∀ l, l ≠ f → maps st' !! l = maps st !! l) →
  Value c ctxKey ≠ IMap (MapAt f) →
  carried st' c = carried st c.
Proof.
  intros Hother Hc. unfold carried.
  destruct (Value c ctxKey) as [| | | |[|p]]; try done. cbn.
  apply maps_total_frame, Hother. congruence.
Qed.

Lemma carried_child (st : state) (c : context) (f : mapval) :
  carried st (WithValue c ctxKey (IMap f)) = contents st f.
Proof. unfold carried. cbn. by rewrite decide_True. Qed.

(** X1: on a context whose nearest logger value is a non-nil map, Extract
    returns an entry of the current default logger whose data is exactly the
    present contents of that map, and changes nothing. *)
Theorem Extract_attached (st : state) (c : context) (p : loc) :
  Value c ctxKey = IMap (MapAt p) →
  Extract c st = Some (logrus.mkEntry (logger st) (contents st (MapAt p)), st).
Proof. intros Hp. rewrite Extract_run. unfold carried. by rewrite Hp. Qed.

Lemma Extract_attached_witness :
  Extract (WithValue Background ctxKey (IMap (MapAt 1))) two_maps
  = Some (logrus.mkEntry logrus.New (contents two_maps (MapAt 1)), two_maps).
Proof.
  apply (Extract_attached two_maps (WithValue Background ctxKey (IMap (MapAt 1)))
           1%positive).
  reflexivity.
Defined.

(** X2: for every parent context and every non-nil map, ToContext returns a
    child whose entry has the fields of the parent's entry merged with the
    former contents of the map, the parent's values winning; so every field of
    the parent's entry is in the child's entry with the same value, and both
    entries are bound to the same logger. *)
Theorem ToContext_child_entry (st : state) (c : context) (f : loc) :
  ∃ c' st' eP e, ToContext c (MapAt f) st = Some (c', st')
    ∧ Extract c st = Some (eP, st)
    ∧ Extract c' st' = Some (e, st')
    ∧ logrus.EntryData e = logrus.EntryData eP ∪ contents st (MapAt f)
    ∧ logrus.EntryData eP ⊆ logrus.EntryData e
    ∧ logrus.EntryLogger e = logrus.EntryLogger eP.
Proof.
  destruct (ToContext_MapAt c f st) as (st' & Hrun & Hf & _ & _ & _ & Hl).
  exists (WithValue c ctxKey (IMap (MapAt f))), st',
    (logrus.mkEntry (logger st) (carried st c)),
    (logrus.mkEntry (logger st) (carried st c ∪ contents st (MapAt f))).
  split; [done|]. rewrite !Extract_run, carried_child. cbn.
  rewrite Hf, Hl. repeat split. apply map_union_subseteq_l.
Qed.

Lemma ToContext_child_entry_witness :
  ∃ c' st' eP e,
    ToContext (WithValue Background ctxKey (IMap (MapAt 1))) (MapAt 2) two_maps
      = Some (c', st')
    ∧ Extract c' st' = Some (e, st')
    ∧ logrus.EntryData eP ⊆ logrus.EntryData e.
Proof.
  destruct (ToContext_child_entry two_maps
              (WithValue Background ctxKey (IMap (MapAt 1))) 2%positive)
    as (c' & st' & eP & e & Hrun & _ & He & _ & Hsub & _).
  exists c', st', eP, e. split; [exact Hrun|]. split; [exact He|exact Hsub].
Defined.

(** X3: with the nil map as [fields], ToContext returns exactly when the
    parent context carries no field: it then leaves the state as it was and
    gives a child on which Extract returns an entry without fields.  When the
    parent carries at least one field the call panics. *)
Theorem ToContext_nil_fields (st : state) (c : context) :
  (carried st c = ∅ →
     ToContext c NilMap st = Some (WithValue c ctxKey (IMap NilMap), st)
     ∧ Extract (WithValue c ctxKey (IMap NilMap)) st
       = Some (logrus.NewEntry (logger st), st))
  ∧ (carried st c ≠ ∅ → ToContext c NilMap st = None).
Proof.
  rewrite ToContext_NilMap. split; intros Hc.
  - rewrite decide_True by done. split; [done|].
    unfold Extract. cbn. by rewrite decide_True.
  - by rewrite decide_False.
Qed.

Lemma ToContext_nil_fields_witness :
  ToContext Background NilMap two_maps
    = Some (WithValue Background ctxKey (IMap NilMap), two_maps)
  ∧ ToContext (WithValue Background ctxKey (IMap (MapAt 1))) NilMap two_maps = None.
Proof.
  split.
  - apply (ToContext_nil_fields two_maps Background). reflexivity.
  - apply (ToContext_nil_fields two_maps
             (WithValue Background ctxKey (IMap (MapAt 1)))).
    vm_compute. discriminate.
Defined.

(** X4: the child context holds the caller's map itself.  When one map is
    attached to two parents in turn, both children hold that one map: after
    the second call both resolve to the same entry, which has the fields of
    the second parent over those of the first parent over the map's own, so
    the first child has gained the second parent's fields. *)
Theorem ToContext_shared_fields (st : state) (c1 c2 : context) (f : loc) :
  Value c2 ctxKey ≠ IMap (MapAt f) →
  ∃ c1' c2' st2 e,
    (c1' ← ToContext c1 (MapAt f); c2' ← ToContext c2 (MapAt f); mret (c1', c2')) st
      = Some ((c1', c2'), st2)
    ∧ Extract c1' st2 = Some (e, st2)
    ∧ Extract c2' st2 = Some (e, st2)
    ∧ logrus.EntryData e
      = carried st c2 ∪ (carried st c1 ∪ contents st (MapAt f)).
Proof.
  intros Hc2.
  destruct (ToContext_MapAt c1 f st) as (st1 & Hrun1 & Hf1 & _ & Ho1 & _ & Hl1).
  destruct (ToContext_MapAt c2 f st1) as (st2 & Hrun2 & Hf2 & _ & _ & _ & Hl2).
  exists (WithValue c1 ctxKey (IMap (MapAt f))),
    (WithValue c2 ctxKey (IMap (MapAt f))), st2,
    (logrus.mkEntry (logger st2)
       (carried st c2 ∪ (carried st c1 ∪ contents st (MapAt f)))).
  split; [unfold mbind, M_bind; by rewrite Hrun1, Hrun2|].
  rewrite !Extract_run, !carried_child. cbn.
  rewrite Hf2, Hf1, (carried_frame st st1 c2 f) by done. done.
Qed.

Lemma ToContext_shared_fields_witness :
  ∃ c1' c2' st2 e,
    (c1' ← ToContext Background (MapAt 2);
     c2' ← ToContext (WithValue Background ctxKey (IMap (MapAt 1))) (MapAt 2);
     mret (c1', c2')) two_maps = Some ((c1', c2'), st2)
    ∧ Extract c1' st2 = Some (e, st2)
    ∧ Extract c2' st2 = Some (e, st2).
Proof.
  destruct (ToContext_shared_fields two_maps Background
              (WithValue Background ctxKey (IMap (MapAt 1))) 2%positive)
    as (c1' & c2' & st2 & e & Hrun & H1 & H2 & _).
  - vm_compute. discriminate.
  - exists c1', c2', st2, e. split; [exact Hrun|]. split; [exact H1|exact H2].
Defined.

(** ** The builder and the contexts that hold its map *)

Lemma WithField_zero (cb : loc) (k : string) (v : iface) (st : state) :
  builders st !! cb = Some {| ctx := NilMap |} →
  let m := fresh (dom (maps st)) in
  WithField cb k v st
  = Some (cb, {| maps := <[m := <[k := v]> ∅]> (maps st);
                 builders := <[cb := {| ctx := MapAt m |}]> (builders st);
                 logger := logger st |}).
Proof.
  intros Hcb m. unfold WithField, mbind, M_bind.
  rewrite init_zero by done. fold m. unfold load_builder. cbn.
  rewrite lookup_insert_eq. cbn. unfold mret, M_ret, set_maps. cbn.
  by rewrite lookup_total_insert_eq, insert_insert_eq.
Qed.

Lemma WithField_unallocated (cb : loc) (k : string) (v : iface) (st : state) :
  builders st !! cb = None → WithField cb k v st = None.
Proof.
  intros Hcb. unfold WithField, init, mbind, M_bind, load_builder.
  by rewrite Hcb.
Qed.

Lemma fresh_map_unallocated (st : state) : maps st !! fresh (dom (maps st)) = None.
Proof. apply not_elem_of_dom, is_fresh. Qed.

Lemma fresh_builder_unallocated (st : state) :
  builders st !! fresh (dom (builders st)) = None.
Proof. apply not_elem_of_dom, is_fresh. Qed.

(** X5: a context holds the map of the builder it was given, not a copy: a
    field set on the builder after ToContext shows in the entry Extract
    returns on the child, there overriding even a field of the parent. *)
Theorem WithField_after_ToContext (st : state) (c : context) (cb m : loc)
    (k : string) (v : iface) :
  builders st !! cb = Some {| ctx := MapAt m |} →
  ∃ e st', (c' ← ToContext c (MapAt m); WithField cb k v;; Extract c') st
             = Some (e, st')
    ∧ logrus.EntryData e = <[k := v]> (carried st c ∪ contents st (MapAt m)).
Proof.
  intros Hcb.
  destruct (ToContext_MapAt c m st) as (st1 & Hrun & Hm & _ & _ & Hb & Hl).
  eexists _, _. unfold mbind, M_bind. rewrite Hrun.
  rewrite (WithField_ready cb m) by (by rewrite Hb).
  rewrite Extract_run, carried_child. split; [reflexivity|]. cbn.
  by rewrite lookup_total_insert_eq, Hm.
Qed.

Lemma WithField_after_ToContext_witness :
  ∃ e st',
    (c' ← ToContext (WithValue Background ctxKey (IMap (MapAt 1))) (MapAt 2);
     WithField 1%positive "region" (IString "us");; Extract c') ready_builder
      = Some (e, st')
    ∧ logrus.EntryData e !! "region" = Some (IString "us").
Proof.
  destruct (WithField_after_ToContext ready_builder
              (WithValue Background ctxKey (IMap (MapAt 1))) 1%positive 2%positive
              "region" (IString "us")) as (e & st' & Hrun & Hdata).
  - vm_compute. reflexivity.
  - exists e, st'. split; [exact Hrun|]. rewrite Hdata. apply lookup_insert_eq.
Defined.

(** X6: ToContext on the map a builder has built writes the parent's fields
    into the builder: the next Build returns the same map, now holding the
    parent's fields over the ones the builder had. *)
Theorem ToContext_writes_builder_map (st : state) (c : context) (cb m : loc) :
  builders st !! cb = Some {| ctx := MapAt m |} →
  ∃ st', (f ← Build cb; ToContext c f;; Build cb) st = Some (MapAt m, st')
    ∧ contents st' (MapAt m) = carried st c ∪ contents st (MapAt m).
Proof.
  intros Hcb.
  destruct (ToContext_MapAt c m st) as (st1 & Hrun & Hm & _ & _ & Hb & _).
  exists st1. unfold mbind, M_bind.
  rewrite (Build_ready cb m) by done. rewrite Hrun.
  rewrite (Build_ready cb m) by (by rewrite Hb). done.
Qed.

Lemma ToContext_writes_builder_map_witness :
  ∃ st',
    (f ← Build 1%positive;
     ToContext (WithValue Background ctxKey (IMap (MapAt 1))) f;;
     Build 1%positive) ready_builder = Some (MapAt 2, st')
    ∧ contents st' (MapAt 2)
      = carried ready_builder (WithValue Background ctxKey (IMap (MapAt 1)))
        ∪ contents ready_builder (MapAt 2).
Proof.
  apply (ToContext_writes_builder_map ready_builder
           (WithValue Background ctxKey (IMap (MapAt 1))) 1%positive 2%positive).
  vm_compute. reflexivity.
Defined.

(** X7: setting the same field twice is setting it once to the last value:
    from every state, for every receiver, the two calls in a row give the
    result and the state of the second call alone. *)
Theorem WithField_last_write_wins (st : state) (cb : loc) (k : string)
    (v1 v2 : iface) :
  (WithField cb k v1;; WithField cb k v2) st = WithField cb k v2 st.
Proof.
  unfold mbind at 1, M_bind at 1.
  destruct (builders st !! cb) as [[[|m]]|] eqn:Hcb.
  - rewrite (WithField_zero cb k v1 st), (WithField_zero cb k v2 st) by done. cbn.
    rewrite (WithField_ready cb (fresh (dom (maps st))))
      by (cbn; apply lookup_insert_eq).
    unfold set_maps. cbn.
    by rewrite lookup_total_insert_eq, !insert_insert_eq.
  - rewrite (WithField_ready cb m k v1 st), (WithField_ready cb m k v2 st) by done.
    rewrite (WithField_ready cb m) by done. unfold set_maps. cbn.
    by rewrite lookup_total_insert_eq, !insert_insert_eq.
  - by rewrite (WithField_unallocated cb k v1 st), (WithField_unallocated cb k v2 st).
Qed.

(** X8: fields with different names can be set in either order: the two
    orders give the same result and the same state. *)
Theorem WithField_commute (st : state) (cb : loc) (k1 k2 : string)
    (v1 v2 : iface) :
  k1 ≠ k2 →
  (WithField cb k1 v1;; WithField cb k2 v2) st
  = (WithField cb k2 v2;; WithField cb k1 v1) st.
Proof.
  intros Hne. unfold mbind, M_bind.
  destruct (builders st !! cb) as [[[|m]]|] eqn:Hcb.
  - rewrite (WithField_zero cb k1 v1 st), (WithField_zero cb k2 v2 st) by done. cbn.
    rewrite (WithField_ready cb (fresh (dom (maps st))) k2 v2),
      (WithField_ready cb (fresh (dom (maps st))) k1 v1)
      by (cbn; apply lookup_insert_eq).
    unfold set_maps. cbn.
    rewrite !lookup_total_insert_eq, !insert_insert_eq.
    by rewrite (insert_insert_ne _ k1 k2).
  - rewrite (WithField_ready cb m k1 v1 st), (WithField_ready cb m k2 v2 st) by done.
    rewrite (WithField_ready cb m k2 v2), (WithField_ready cb m k1 v1) by done.
    unfold set_maps. cbn.
    rewrite !lookup_total_insert_eq, !insert_insert_eq.
    by rewrite (insert_insert_ne _ k1 k2).
  - by rewrite (WithField_unallocated cb k1 v1 st), (WithField_unallocated cb k2 v2 st).
Qed.

Lemma WithField_commute_witness :
  (WithField 1%positive "provider" (IString "aws");;
   WithField 1%positive "region" (IString "eu")) zero_builder
  = (WithField 1%positive "region" (IString "eu");;
     WithField 1%positive "provider" (IString "aws")) zero_builder.
Proof.
  apply (WithField_commute zero_builder 1%positive "provider" "region").
  discriminate.
Defined.

(** X9: WithField on an allocated builder returns the receiver, and then the
    builder's map has the given value under the given name, every other name
    as the builder had it before (no field for a builder without a map),
    while every other map, every other builder and the logger are unchanged. *)
Theorem WithField_frame (st : state) (cb : loc) (b : logCtxBuilder)
    (k : string) (v : iface) :
  builders st !! cb = Some b →
  ∃ m st', WithField cb k v st = Some (cb, st')
    ∧ builders st' !! cb = Some {| ctx := MapAt m |}
    ∧ contents st' (MapAt m) !! k = Some v
    ∧ (∀ k', k' ≠ k → contents st' (MapAt m) !! k' = contents st (ctx b) !! k')
    ∧ (∀ l, l ≠ m → maps st' !! l = maps st !! l)
    ∧ (∀ cb', cb' ≠ cb → builders st' !! cb' = builders st !! cb')
    ∧ logger st' = logger st.
Proof.
  destruct b as [[|m]]; intros Hcb.
  - eexists _, _. split; [by apply WithField_zero|]. cbn.
    rewrite lookup_total_insert_eq, !lookup_insert_eq.
    split; [done|]. split; [done|].
    split; [by intros k' Hk'; rewrite lookup_insert_ne|].
    split; [by intros l Hl; rewrite lookup_insert_ne|].
    split; [by intros cb' Hcb'; rewrite lookup_insert_ne|done].
  - exists m. eexists. split; [by apply WithField_ready|]. cbn.
    rewrite lookup_total_insert_eq, lookup_insert_eq.
    split; [done|]. split; [done|].
    split; [by intros k' Hk'; rewrite lookup_insert_ne|].
    split; [by intros l Hl; rewrite lookup_insert_ne|done].
Qed.

Lemma WithField_frame_witness :
  ∃ m st', WithField 1%positive "region" (IString "eu") ready_builder
             = Some (1%positive, st')
    ∧ contents st' (MapAt m) !! "region" = Some (IString "eu")
    ∧ contents st' (MapAt m) !! "correlation-id" = Some (IString "abc").
Proof.
  destruct (WithField_frame ready_builder 1%positive {| ctx := MapAt 2 |}
              "region" (IString "eu"))
    as (m & st' & Hrun & _ & Hk & Hother & _).
  - vm_compute. reflexivity.
  - exists m, st'. split; [exact Hrun|]. split; [exact Hk|].
    rewrite Hother by discriminate. vm_compute. reflexivity.
Defined.

(** X10: NewLogCtxBuilder returns from every state a builder that was not
    allocated before, holding a map that was not allocated before and has no
    entry, so that Build on it gives an empty field set; the maps and
    builders that existed, and the logger, are as they were. *)
Theorem NewLogCtxBuilder_fresh (st : state) :
  ∃ cb m st', NewLogCtxBuilder st = Some (cb, st')
    ∧ builders st !! cb = None
    ∧ maps st !! m = None
    ∧ builders st' !! cb = Some {| ctx := MapAt m |}
    ∧ maps st' !! m = Some ∅
    ∧ Build cb st' = Some (MapAt m, st')
    ∧ (∀ l, l ≠ m → maps st' !! l = maps st !! l)
    ∧ (∀ cb', cb' ≠ cb → builders st' !! cb' = builders st !! cb')
    ∧ logger st' = logger st.
Proof.
  eexists _, _, _. split; [apply NewLogCtxBuilder_run|]. cbn.
  split; [apply fresh_builder_unallocated|].
  split; [apply fresh_map_unallocated|].
  rewrite !lookup_insert_eq. split; [done|]. split; [done|].
  split; [apply Build_ready; cbn; apply lookup_insert_eq|].
  split; [by intros l Hl; rewrite lookup_insert_ne|].
  split; [by intros cb' Hcb'; rewrite lookup_insert_ne|done].
Qed.

Lemma NewLogCtxBuilder_fresh_witness :
  ∃ cb m st', NewLogCtxBuilder ready_builder = Some (cb, st')
    ∧ maps st' !! m = Some ∅
    ∧ maps st' !! 2%positive = maps ready_builder !! 2%positive.
Proof.
  destruct (NewLogCtxBuilder_fresh ready_builder)
    as (cb & m & st' & Hrun & _ & Hm & _ & Hempty & _ & Hother & _).
  exists cb, m, st'. split; [exact Hrun|]. split; [exact Hempty|].
  apply Hother. intros Heq. subst m. vm_compute in Hm. discriminate.
Defined.

(** X11: two builders made one after the other are different builders with
    different maps: a field set on the first is the only field of the map the
    first builds, and the map the second builds stays empty. *)
Theorem builders_independent (st : state) (k : string) (v : iface) :
  ∃ cb1 cb2 m1 m2 st',
    (cb1 ← NewLogCtxBuilder; cb2 ← NewLogCtxBuilder;
     WithField cb1 k v;;
     f1 ← Build cb1; f2 ← Build cb2; mret (cb1, cb2, f1, f2)) st
      = Some ((cb1, cb2, MapAt m1, MapAt m2), st')
    ∧ cb1 ≠ cb2 ∧ m1 ≠ m2
    ∧ maps st' !! m1 = Some (<[k := v]> ∅)
    ∧ maps st' !! m2 = Some ∅.
Proof.
  unfold mbind, M_bind. rewrite NewLogCtxBuilder_run.
  set (cb1 := fresh (dom (builders st))). set (m1 := fresh (dom (maps st))).
  set (st1 := {| maps := <[m1 := ∅]> (maps st);
                 builders := <[cb1 := {| ctx := MapAt m1 |}]> (builders st);
                 logger := logger st |}).
  rewrite (NewLogCtxBuilder_run st1).
  set (cb2 := fresh (dom (builders st1))). set (m2 := fresh (dom (maps st1))).
  assert (cb1 ≠ cb2) as Hcb.
  { intros Heq. pose proof (fresh_builder_unallocated st1) as Hf.
    fold cb2 in Hf. rewrite <-Heq in Hf. cbn in Hf.
    by rewrite lookup_insert_eq in Hf. }
  assert (m1 ≠ m2) as Hm.
  { intros Heq. pose proof (fresh_map_unallocated st1) as Hf.
    fold m2 in Hf. rewrite <-Heq in Hf. cbn in Hf.
    by rewrite lookup_insert_eq in Hf. }
  rewrite (WithField_ready cb1 m1)
    by (cbn; rewrite lookup_insert_ne by done; apply lookup_insert_eq).
  rewrite (Build_ready cb1 m1)
    by (cbn; rewrite lookup_insert_ne by done; apply lookup_insert_eq).
  rewrite (Build_ready cb2 m2) by (cbn; apply lookup_insert_eq).
  exists cb1, cb2, m1, m2. eexists. split; [reflexivity|].
  split; [done|]. split; [done|]. cbn.
  rewrite lookup_total_insert_ne, lookup_total_insert_eq, lookup_insert_eq by done.
  split; [done|].
  by rewrite lookup_insert_ne, lookup_insert_eq by done.
Qed.

(** ** Configuration, continued *)

Section ConfigureMore.

Variable ParseLevel : string → logrus.Level * option string.

(** X12: when the level string parses, InitLogger returns and the default
    logger has the parsed level; the JSON formatter is chosen exactly when
    the format is the string "json"; no map and no builder is changed. *)
Theorem InitLogger_parsed (level format : string) (lv : logrus.Level)
    (st : state) :
  ParseLevel level = (lv, None) →
  ∃ st', InitLogger ParseLevel level format st = Some ((), st')
    ∧ logrus.LoggerLevel (logger st') = lv
    ∧ (logrus.LoggerFormatter (logger st') = logrus.JSONFormatter
       ↔ format = "json")
    ∧ maps st' = maps st ∧ builders st' = builders st.
Proof.
  intros Hparse. eexists. split; [reflexivity|]. cbn. unfold newLogger. cbn.
  rewrite Hparse. cbn. split; [done|]. split; [|done].
  case_decide; split; done.
Qed.

(** X13: InitLogger does not touch the logging contexts: Extract after it
    returns an entry with the same fields as before it, bound to the logger
    that was just configured, while the entry taken before is bound to the
    logger of that moment. *)
Theorem Extract_after_InitLogger (level format : string) (c : context)
    (st : state) :
  ∃ e0 e1 st',
    Extract c st = Some (e0, st)
    ∧ (InitLogger ParseLevel level format;; Extract c) st = Some (e1, st')
    ∧ logrus.EntryData e1 = logrus.EntryData e0
    ∧ logrus.EntryLogger e0 = logger st
    ∧ logrus.EntryLogger e1
      = newLogger ParseLevel {| ConfigLevel := level; ConfigFormat := format |}.
Proof.
  eexists _, _, _. split; [apply Extract_run|].
  unfold mbind, M_bind, InitLogger, modify. rewrite Extract_run.
  split; [reflexivity|]. by cbn.
Qed.

End ConfigureMore.

Lemma InitLogger_parsed_witness :
  ∃ st', InitLogger logrus.ParseLevel "debug" "JSON" two_maps = Some ((), st')
    ∧ logrus.LoggerLevel (logger st') = logrus.DebugLevel
    ∧ logrus.LoggerFormatter (logger st') ≠ logrus.JSONFormatter.
Proof.
  destruct (InitLogger_parsed logrus.ParseLevel "debug" "JSON" logrus.DebugLevel
              two_maps) as (st' & Hrun & Hlv & Hfmt & _).
  - vm_compute. reflexivity.
  - exists st'. split; [exact Hrun|]. split; [exact Hlv|].
    intros Hjson. apply Hfmt in Hjson. discriminate.
Defined.

(** ** Values of other packages in the context *)

(** X14: a context node that another package added under its own key is
    invisible to this package: Extract returns the same entry with or without
    the node, and ToContext leaves the same state and stores the same map. *)
Theorem foreign_value_ignored (st : state) (c : context) (name : string)
    (val : iface) (fields : mapval) :
  Extract (WithValue c (foreignKey name) val) st = Extract c st
  ∧ snd <$> ToContext (WithValue c (foreignKey name) val) fields st
    = snd <$> ToContext c fields st
  ∧ (λ r, Value r.1 ctxKey) <$> ToContext (WithValue c (foreignKey name) val) fields st
    = (λ r, Value r.1 ctxKey) <$> ToContext c fields st.
Proof.
  unfold Extract, ToContext. cbn [Value].
  rewrite decide_False by done.
  destruct (Value c ctxKey) as [| | | |[|p]]; cbn; try done.
  repeat split; run_M; by destruct (range_store fields _ st) as [[[] ?]|].
Qed.

Lemma builders_independent_witness :
  ∃ cb1 cb2 m1 m2 st',
    (cb1 ← NewLogCtxBuilder; cb2 ← NewLogCtxBuilder;
     WithField cb1 "provider" (IString "aws");;
     f1 ← Build cb1; f2 ← Build cb2; mret (cb1, cb2, f1, f2)) initial
      = Some ((cb1, cb2, MapAt m1, MapAt m2), st')
    ∧ maps st' !! m2 = Some ∅.
Proof.
  destruct (builders_independent initial "provider" (IString "aws"))
    as (cb1 & cb2 & m1 & m2 & st' & Hrun & _ & _ & _ & Hm2).
  exists cb1, cb2, m1, m2, st'. split; [exact Hrun|exact Hm2].
Defined.

(** ** Chains of scopes and the usual pipeline *)

Lemma attach_all_carried (fs : list loc) (c : context) (st : state) :
  ∃ c' st', attach_all c (MapAt <$> fs) st = Some (c', st')
    ∧ carried st c ⊆ carried st' c'
    ∧ logger st' = logger st.
Proof.
  revert c st. induction fs as [|f fs IH]; intros c st.
  - exists c, st. by repeat split.
  - destruct (ToContext_MapAt c f st) as (st1 & Hrun & Hf & _ & _ & _ & Hl).
    destruct (IH (WithValue c ctxKey (IMap (MapAt f))) st1)
      as (c' & st' & Hrest & Hsub & Hl').
    exists c', st'. cbn. unfold mbind, M_bind. rewrite Hrun.
    split; [exact Hrest|]. split; [|congruence].
    etrans; [|exact Hsub]. rewrite carried_child. cbn. rewrite Hf.
    apply map_union_subseteq_l.
Qed.

(** X15: through any chain of nested ToContext calls with non-nil maps every
    call returns, and every field of the entry Extract gives on the outermost
    context is, with the same value, in the entry Extract gives on the
    innermost one: a descendant never loses or overrides an inherited field. *)
Theorem attach_all_inherits (fs : list loc) (c : context) (st : state) :
  ∃ c' st' e0 e, attach_all c (MapAt <$> fs) st = Some (c', st')
    ∧ Extract c st = Some (e0, st)
    ∧ Extract c' st' = Some (e, st')
    ∧ logrus.EntryData e0 ⊆ logrus.EntryData e
    ∧ logrus.EntryLogger e = logrus.EntryLogger e0.
Proof.
  destruct (attach_all_carried fs c st) as (c' & st' & Hrun & Hsub & Hl).
  eexists c', st', _, _. split; [exact Hrun|]. rewrite !Extract_run.
  split; [reflexivity|]. split; [reflexivity|]. by cbn.
Qed.

Lemma attach_all_inherits_witness :
  ∃ c' st' e,
    attach_all (WithValue Background ctxKey (IMap (MapAt 1)))
      [MapAt 2; MapAt 3] with_empty_map = Some (c', st')
    ∧ Extract c' st' = Some (e, st')
    ∧ logrus.EntryData e !! "correlation-id" = Some (IString "xyz").
Proof.
  destruct (attach_all_inherits [2%positive; 3%positive]
              (WithValue Background ctxKey (IMap (MapAt 1))) with_empty_map)
    as (c' & st' & e0 & e & Hrun & H0 & He & Hsub & _).
  exists c', st', e. split; [exact Hrun|]. split; [exact He|].
  eapply lookup_weaken; [|exact Hsub].
  rewrite Extract_run in H0. injection H0 as <-. vm_compute. reflexivity.
Defined.

(** X16: the usual pipeline.  From every state and on every parent context,
    making a builder, setting one field, building and attaching the built map
    returns, and Extract on the child gives the fields of the parent's entry
    together with the new field; when the parent has a field of that name the
    parent's value stays. *)
Theorem builder_pipeline (st : state) (c : context) (k : string) (v : iface) :
  ∃ e0 e st',
    Extract c st = Some (e0, st)
    ∧ (cb ← NewLogCtxBuilder; WithField cb k v;;
       f ← Build cb; c' ← ToContext c f; Extract c') st = Some (e, st')
    ∧ logrus.EntryData e = logrus.EntryData e0 ∪ <[k := v]> ∅
    ∧ logrus.EntryLogger e = logrus.EntryLogger e0.
Proof.
  unfold mbind, M_bind. rewrite NewLogCtxBuilder_run.
  set (cb := fresh (dom (builders st))). set (m := fresh (dom (maps st))).
  rewrite (WithField_ready cb m) by apply lookup_insert_eq.
  rewrite (Build_ready cb m) by apply lookup_insert_eq.
  match goal with |- context [ToContext c (MapAt m) ?s] => set (st2 := s) end.
  destruct (ToContext_MapAt c m st2) as (st3 & Hrun & Hm & _ & _ & _ & Hl).
  rewrite Hrun. eexists _, _, _. rewrite !Extract_run, carried_child.
  split; [reflexivity|]. split; [reflexivity|]. cbn. split; [|by rewrite Hl].
  rewrite Hm. subst st2. cbn. rewrite !lookup_total_insert_eq.
  unfold carried. destruct (Value c ctxKey) as [| | | |[|p]]; cbn; try done.
  destruct (decide (p = m)) as [->|Hne].
  - rewrite !lookup_total_insert_eq.
    rewrite (lookup_total_alt (maps st)).
    rewrite (fresh_map_unallocated st : maps st !! m = None). cbn.
    by rewrite (idemp_L (∪)), (left_id_L ∅ (∪)).
  - by rewrite !lookup_total_insert_ne.
Qed.
